(** * Inventory service of the medusa inventory module

    A shallow embedding of [packages/inventory/src/services/inventory.ts]
    (class [InventoryService]) and of the variant ranking of
    [packages/product/src/services/product-variant.ts].  The service is a set of short transaction
    scripts over three stores (inventory items, inventory levels, reservation
    items).  Every script is embedded as a function in a state-and-exception
    monad over a [World]: the database tables plus the log of the store calls
    issued so far.

    Quantities are JavaScript numbers holding integers; they are embedded as
    [Z], on which [+], [-] and [>=] agree with the JavaScript operators for
    every integer the database column can hold. *)

From stdpp Require Import base decidable option list strings gmap pretty.
From Stdlib Require Import ZArith Lia.

Local Open Scope Z_scope.

(** ** Data model *)

Inductive MedusaErrorType : Type :=
  | NOT_FOUND
  | INVALID_DATA
  | DB_ERROR.

Record MedusaError : Type := mkMedusaError {
  error_type : MedusaErrorType;
  error_message : string
}.

Record InventoryItemDTO : Type := mkInventoryItem {
  item_id : string;
  item_sku : option string
}.

Record InventoryLevelDTO : Type := mkInventoryLevel {
  level_id : string;
  level_inventory_item_id : string;
  level_location_id : string;
  stocked_quantity : Z;
  reserved_quantity : Z;
  incoming_quantity : Z
}.

Record ReservationItemDTO : Type := mkReservationItem {
  reservation_id : string;
  reservation_line_item_id : option string;
  reservation_inventory_item_id : string;
  reservation_location_id : string;
  reservation_quantity : Z
}.

Record CreateReservationItemInput : Type := mkCreateReservationItemInput {
  input_line_item_id : option string;
  input_inventory_item_id : string;
  input_location_id : string;
  input_quantity : Z
}.

(** The structural type [{ location_id: string; inventory_item_id: string }]
    that [ensureInventoryLevels] accepts: any record with these two fields. *)
Class LevelKeyed (A : Type) : Type := {
  inventory_item_id : A → string;
  location_id : A → string
}.

Global Instance level_keyed : LevelKeyed InventoryLevelDTO :=
  {| inventory_item_id := level_inventory_item_id;
     location_id := level_location_id |}.

Global Instance reservation_keyed : LevelKeyed ReservationItemDTO :=
  {| inventory_item_id := reservation_inventory_item_id;
     location_id := reservation_location_id |}.

Global Instance input_keyed : LevelKeyed CreateReservationItemInput :=
  {| inventory_item_id := input_inventory_item_id;
     location_id := input_location_id |}.

Global Instance pair_keyed : LevelKeyed (string * string) :=
  {| inventory_item_id := fst; location_id := snd |}.

(** The (item, location) pair a record refers to. *)
Definition level_key `{LevelKeyed A} (x : A) : string * string :=
  (inventory_item_id x, location_id x).

(** An argument of type [string | string[]]. *)
Inductive IdOrIds : Type :=
  | OneId (id : string)
  | ManyIds (ids : list string).

Definition id_list (x : IdOrIds) : list string :=
  match x with
  | OneId id => [id]
  | ManyIds ids => ids
  end.

(** ** The world: database tables and the log of store calls *)

Record Database : Type := mkDatabase {
  inventory_items : list InventoryItemDTO;
  inventory_levels : list InventoryLevelDTO;
  reservation_items : list ReservationItemDTO;
  reservation_seq : nat
}.

Inductive StoreCall : Type :=
  | ItemRetrieve (id : string)
  | ItemDelete (ids : IdOrIds)
  | LevelList (items locations : list string) (take : option nat)
  | LevelUpdate (id : string) (stocked : Z)
  | LevelDelete (id : string)
  | LevelDeleteByInventoryItemId (ids : IdOrIds)
  | LevelGetStockedQuantity (item : string) (locations : list string)
  | LevelGetReservedQuantity (item : string) (locations : list string)
  | LevelGetAvailableQuantity (item : string) (locations : list string)
  | ReservationCreate (input : list CreateReservationItemInput).

(** The calls that write to a table. *)
Definition is_write (c : StoreCall) : bool :=
  match c with
  | ItemDelete _ | LevelUpdate _ _ | LevelDelete _
  | LevelDeleteByInventoryItemId _ | ReservationCreate _ => true
  | _ => false
  end.

(** The calls that reach the inventory level store. *)
Definition is_level_call (c : StoreCall) : bool :=
  match c with
  | LevelList _ _ _ | LevelUpdate _ _ | LevelDelete _
  | LevelDeleteByInventoryItemId _ | LevelGetStockedQuantity _ _
  | LevelGetReservedQuantity _ _ | LevelGetAvailableQuantity _ _ => true
  | _ => false
  end.

Record World : Type := mkWorld {
  db : Database;
  calls : list StoreCall
}.

(** ** The service monad: state passing with exceptions *)

Inductive Outcome (A : Type) : Type :=
  | Return (a : A)
  | Throw (e : MedusaError).
Arguments Return {A} a.
Arguments Throw {A} e.

Definition Service (A : Type) : Type := World → Outcome A * World.

Definition ret {A} (a : A) : Service A := λ w, (Return a, w).

Definition bind {A B} (m : Service A) (k : A → Service B) : Service B :=
  λ w, match m w with
       | (Return a, w') => k a w'
       | (Throw e, w') => (Throw e, w')
       end.

Definition throw {A} (t : MedusaErrorType) (msg : string) : Service A :=
  λ w, (Throw (mkMedusaError t msg), w).

Declare Scope service_scope.
Delimit Scope service_scope with service.
Notation "'await' x <- m ; k" := (bind m (λ x, k))
  (at level 10, x name, m at level 100, k at level 200) : service_scope.
Notation "'run' m ; k" := (bind m (λ _, k))
  (at level 10, m at level 100, k at level 200) : service_scope.
Local Open Scope service_scope.

(** Record a store call in the log. *)
Definition issue (c : StoreCall) : Service unit :=
  λ w, (Return tt, {| db := db w; calls := calls w ++ [c] |}).

Definition read {A} (f : Database → A) : Service A :=
  λ w, (Return (f (db w)), w).

Definition write (f : Database → Database) : Service unit :=
  λ w, (Return tt, {| db := f (db w); calls := calls w |}).

(** Modelled from the spec: the decorator [InjectTransactionManager] and the
    predicate [shouldForceTransaction] live outside this file.  Section 5 of
    the specification: the decorated operation runs inside a transaction
    boundary (its own, or the one the caller holds), and "a failure at any
    step rolls back every write already issued in that boundary".  No caller
    in this service catches an exception, so a joined transaction and a new
    one are indistinguishable: on a throw the tables are those at entry.  The
    log of issued calls is kept. *)
Definition InjectTransactionManager {A} (body : Service A) : Service A :=
  λ w, match body w with
       | (Return a, w') => (Return a, w')
       | (Throw e, w') => (Throw e, {| db := db w; calls := calls w' |})
       end.

Definition threw {A} (o : Outcome A) (t : MedusaErrorType) : Prop :=
  match o with
  | Return _ => False
  | Throw e => error_type e = t
  end.

(** ** The stores

    The three store services ([./inventory-item], [./inventory-level],
    [./reservation-item]) are collaborators of [InventoryService] whose
    sources are missing; their behaviour is taken from sections 3, 4.1 to
    4.4 and 8 of the specification.  A table is the list of its rows in the order a query
    returns them. *)

Definition set_stocked_quantity (q : Z) (l : InventoryLevelDTO)
  : InventoryLevelDTO :=
  {| level_id := level_id l;
     level_inventory_item_id := level_inventory_item_id l;
     level_location_id := level_location_id l;
     stocked_quantity := q;
     reserved_quantity := reserved_quantity l;
     incoming_quantity := incoming_quantity l |}.

Definition add_reserved_quantity (q : Z) (l : InventoryLevelDTO)
  : InventoryLevelDTO :=
  {| level_id := level_id l;
     level_inventory_item_id := level_inventory_item_id l;
     level_location_id := level_location_id l;
     stocked_quantity := stocked_quantity l;
     reserved_quantity := reserved_quantity l + q;
     incoming_quantity := incoming_quantity l |}.

Definition with_items (f : list InventoryItemDTO → list InventoryItemDTO)
  (d : Database) : Database :=
  {| inventory_items := f (inventory_items d);
     inventory_levels := inventory_levels d;
     reservation_items := reservation_items d;
     reservation_seq := reservation_seq d |}.

Definition with_levels (f : list InventoryLevelDTO → list InventoryLevelDTO)
  (d : Database) : Database :=
  {| inventory_items := inventory_items d;
     inventory_levels := f (inventory_levels d);
     reservation_items := reservation_items d;
     reservation_seq := reservation_seq d |}.

Module InventoryItemService.

Definition find (id : string) (d : Database) : option InventoryItemDTO :=
  head (filter (λ i, item_id i = id) (inventory_items d)).

(** Modelled from the spec: [InventoryItemService.retrieve] is not among
    the sources.  Section 4.1: "retrieve(id, projection) → item or fails with
    NotFound"; section 4.5: the failure carries the offending identifier. *)
Definition retrieve (id : string) : Service InventoryItemDTO :=
  run issue (ItemRetrieve id);
  await found <- read (find id);
  match found with
  | Some item => ret item
  | None =>
      throw NOT_FOUND ("InventoryItem with id " +:+ id +:+ " was not found")
  end.

(** Modelled from the spec: [InventoryItemService.delete] is not among
    the sources.  Section 4.1: "delete(id-or-ids) → removes rows, no
    cascade". *)
Definition delete (ids : IdOrIds) : Service unit :=
  run issue (ItemDelete ids);
  write (with_items (filter (λ i, item_id i ∉ id_list ids))).

End InventoryItemService.

Module InventoryLevelService.

(** The rows a selector [{ inventory_item_id: items, location_id: locs }]
    matches: the item id is one of [items] and the location id is one of
    [locs]. *)
Definition selects (items locations : list string) (l : InventoryLevelDTO)
  : Prop :=
  inventory_item_id l ∈ items ∧ location_id l ∈ locations.

Global Instance selects_dec items locations l
  : Decision (selects items locations l).
Proof. unfold selects. apply _. Defined.

Definition limit {A} (n : option nat) (rows : list A) : list A :=
  match n with
  | Some k => take k rows
  | None => rows
  end.

Definition select (items locations : list string) (d : Database)
  : list InventoryLevelDTO :=
  filter (selects items locations) (inventory_levels d).

Definition find (id : string) (d : Database) : option InventoryLevelDTO :=
  head (filter (λ l, level_id l = id) (inventory_levels d)).


(** Modelled from the spec: [InventoryLevelService.delete] is not among
    the sources.  Section 4.1: "delete(id-or-ids) → removes rows". *)
Definition delete (id : string) : Service unit :=
  run issue (LevelDelete id);
  write (with_levels (filter (λ l, level_id l ≠ id))).

(** Modelled from the spec: [InventoryLevelService.deleteByInventoryItemId]
    is not among the sources.  Section 4.2: "delete all levels for a given
    item id (or ids)". *)
Definition deleteByInventoryItemId (ids : IdOrIds) : Service unit :=
  run issue (LevelDeleteByInventoryItemId ids);
  write (with_levels (filter (λ l, inventory_item_id l ∉ id_list ids))).

Definition sum_of (f : InventoryLevelDTO → Z) (rows : list InventoryLevelDTO)
  : Z :=
  foldr (λ l acc, f l + acc) 0 rows.

Definition stocked_sum (item : string) (locations : list string)
  (d : Database) : Z :=
  sum_of stocked_quantity (select [item] locations d).

Definition reserved_sum (item : string) (locations : list string)
  (d : Database) : Z :=
  sum_of reserved_quantity (select [item] locations d).

(** Modelled from the spec: the three aggregation helpers are not among
    the sources.  Section 4.2: "given an item id and a list of location ids,
    return the sum of stocked, reserved, and derived available quantities
    across exactly those (item, location) rows that exist; locations with
    no row contribute zero"; section 4.4: "stocked = Σ stocked_quantity,
    reserved = Σ reserved_quantity, available = stocked - reserved". *)
Definition getStockedQuantity (item : string) (locations : list string)
  : Service Z :=
  run issue (LevelGetStockedQuantity item locations);
  read (stocked_sum item locations).

Definition getReservedQuantity (item : string) (locations : list string)
  : Service Z :=
  run issue (LevelGetReservedQuantity item locations);
  read (reserved_sum item locations).

Definition getAvailableQuantity (item : string) (locations : list string)
  : Service Z :=
  run issue (LevelGetAvailableQuantity item locations);
  read (λ d, stocked_sum item locations d - reserved_sum item locations d).

(** Modelled from the spec: [InventoryLevelService.list] is not among
    the sources.  Section 4.2: "list levels matching a set of item-ids and a
    set of location-ids"; [take] is the [take] of the find configuration
    (at most that many rows, all rows when absent). *)
Definition list (items locations : list string) (take : option nat)
  : Service (list InventoryLevelDTO) :=
  run issue (LevelList items locations take);
  read (λ d, limit take (select items locations d)).

End InventoryLevelService.

Module ReservationItemService.

Definition new_id (n : nat) : string := "resitem_" +:+ pretty n.

Definition new_row (n : nat) (i : CreateReservationItemInput)
  : ReservationItemDTO :=
  {| reservation_id := new_id n;
     reservation_line_item_id := input_line_item_id i;
     reservation_inventory_item_id := inventory_item_id i;
     reservation_location_id := location_id i;
     reservation_quantity := input_quantity i |}.

Definition new_rows (n : nat) (input : list CreateReservationItemInput)
  : list ReservationItemDTO :=
  imap (λ k i, new_row (n + k) i) input.

(** The level rows after [input] has been reserved against them. *)
Definition reserve (i : CreateReservationItemInput)
  (levels : list InventoryLevelDTO) : list InventoryLevelDTO :=
  (λ l, if decide (level_key l = level_key i)
        then add_reserved_quantity (input_quantity i) l else l) <$> levels.

Definition insert (input : list CreateReservationItemInput) (d : Database)
  : Database :=
  {| inventory_items := inventory_items d;
     inventory_levels :=
       foldl (λ ls i, reserve i ls) (inventory_levels d) input;
     reservation_items :=
       reservation_items d ++ new_rows (reservation_seq d) input;
     reservation_seq := (reservation_seq d + length input)%nat |}.

(** Modelled from the spec: [ReservationItemService.create] is not among
    the sources.  Section 4.3: "create(one-or-many specs) → created rows";
    section 3: [reserved_quantity] of a level is "mutated ... in step with
    reservation writes"; section 8: with a level stocked=10, reserved=0,
    "Reserve 5 units → retrieveAvailableQuantity(I1,[LOC1]) → 5".  The new
    rows take consecutive identifiers from the table's sequence. *)
Definition create (input : list CreateReservationItemInput)
  : Service (list ReservationItemDTO) :=
  run issue (ReservationCreate input);
  await n <- read reservation_seq;
  run write (insert input);
  ret (new_rows n input).

End ReservationItemService.

(** ** The inventory service *)

(** [Array.prototype.join]. *)
Fixpoint join (sep : string) (parts : list string) : string :=
  match parts with
  | [] => ""
  | [s] => s
  | s :: rest => s +:+ sep +:+ join sep rest
  end.

Module InventoryService.

(** One step of the [reduce] that builds the two-level map
    item id → location id → level. *)
Definition index_level (acc : gmap string (gmap string InventoryLevelDTO))
  (curr : InventoryLevelDTO) : gmap string (gmap string InventoryLevelDTO) :=
  let inventoryLevelMap := default ∅ (acc !! inventory_item_id curr) in
  <[inventory_item_id curr :=
      <[location_id curr := curr]> inventoryLevelMap]> acc.

Definition index_levels (inventoryLevels : list InventoryLevelDTO)
  : gmap string (gmap string InventoryLevelDTO) :=
  foldl index_level ∅ inventoryLevels.

(** [inventoryLevelMap.get(item)?.get(location)]; [None] is [undefined]. *)
Definition index_get (m : gmap string (gmap string InventoryLevelDTO))
  (item location : string) : option InventoryLevelDTO :=
  m !! item ≫= (λ inner, inner !! location).

Definition not_stocked `{LevelKeyed A} (missing : A) : string :=
  "Item " +:+ inventory_item_id missing +:+
  " is not stocked at location " +:+ location_id missing.

(** The result holds one entry per row the level query returned; an entry
    is what the map lookup gives for that row's own key (the non-null
    assertions [!] leave the value as it is). *)
Definition ensureInventoryLevels `{LevelKeyed A} (data : list A)
  : Service (list (option InventoryLevelDTO)) :=
  await inventoryLevels <-
    InventoryLevelService.list
      (inventory_item_id <$> data) (location_id <$> data) None;
  let inventoryLevelMap := index_levels inventoryLevels in
  let missing :=
    filter (λ i, ¬ is_Some (index_get inventoryLevelMap
                              (inventory_item_id i) (location_id i))) data in
  if decide (length missing ≠ 0%nat) then
    let error := join ", " (not_stocked <$> missing) in
    throw NOT_FOUND error
  else
    ret ((λ i, index_get inventoryLevelMap
                 (inventory_item_id i) (location_id i)) <$> inventoryLevels).

Definition createReservationItems (input : list CreateReservationItemInput)
  : Service (list ReservationItemDTO) :=
  InjectTransactionManager (
    run ensureInventoryLevels input;
    ReservationItemService.create input).

Definition deleteInventoryItem (inventoryItemId : IdOrIds) : Service unit :=
  InjectTransactionManager (
    run InventoryLevelService.deleteByInventoryItemId inventoryItemId;
    InventoryItemService.delete inventoryItemId).

Definition deleteInventoryLevel (inventoryItemId locationId : string)
  : Service unit :=
  InjectTransactionManager (
    await rows <-
      InventoryLevelService.list [inventoryItemId] [locationId] (Some 1%nat);
    match head rows with
    | None => ret tt
    | Some inventoryLevel =>
        InventoryLevelService.delete (level_id inventoryLevel)
    end).


Definition retrieveAvailableQuantity (inventoryItemId : string)
  (locationIds : list string) : Service Z :=
  run InventoryItemService.retrieve inventoryItemId;
  if decide (length locationIds = 0%nat) then ret 0
  else
    await availableQuantity <-
      InventoryLevelService.getAvailableQuantity inventoryItemId locationIds;
    ret availableQuantity.

Definition retrieveStockedQuantity (inventoryItemId : string)
  (locationIds : list string) : Service Z :=
  run InventoryItemService.retrieve inventoryItemId;
  if decide (length locationIds = 0%nat) then ret 0
  else
    await stockedQuantity <-
      InventoryLevelService.getStockedQuantity inventoryItemId locationIds;
    ret stockedQuantity.

Definition retrieveReservedQuantity (inventoryItemId : string)
  (locationIds : list string) : Service Z :=
  run InventoryItemService.retrieve inventoryItemId;
  if decide (length locationIds = 0%nat) then ret 0
  else
    await reservedQuantity <-
      InventoryLevelService.getReservedQuantity inventoryItemId locationIds;
    ret reservedQuantity.

Definition confirmInventory (inventoryItemId : string)
  (locationIds : list string) (quantity : Z) : Service bool :=
  InjectTransactionManager (
    await availableQuantity <-
      retrieveAvailableQuantity inventoryItemId locationIds;
    ret (availableQuantity >=? quantity)).

Definition retrieveInventoryItem (inventoryItemId : string)
  : Service InventoryItemDTO :=
  await inventoryItem <- InventoryItemService.retrieve inventoryItemId;
  ret inventoryItem.

Definition retrieveInventoryLevel (inventoryItemId locationId : string)
  : Service InventoryLevelDTO :=
  await rows <-
    InventoryLevelService.list [inventoryItemId] [locationId] (Some 1%nat);
  match head rows with
  | None =>
      throw NOT_FOUND
        ("Inventory level for item " +:+ inventoryItemId +:+
         " and location " +:+ locationId +:+ " not found")
  | Some inventoryLevel => ret inventoryLevel
  end.


End InventoryService.

(** ** The product variant service

    [packages/product/src/services/product-variant.ts], method [create]: the
    only computation of that service, the ranking of new variants.  The
    product service and the variant repository are collaborators outside the
    file and are parameters of the embedding, as are the type of stored
    variants and the fields of a variant input other than [variant_rank] and
    [product].  [Object.assign] updates the objects of [data] in place; the
    embedding gives the array the repository receives. *)

Record Product (Variant : Type) : Type := mkProduct {
  product_id : string;
  variants : list Variant
}.
Arguments mkProduct {Variant} _ _.
Arguments product_id {Variant} _.
Arguments variants {Variant} _.

Record CreateProductVariantOnlyDTO (Fields Variant : Type) : Type :=
  mkCreateProductVariant {
    variant_fields : Fields;
    variant_rank : option nat;
    variant_product : option (Product Variant)
  }.
Arguments mkCreateProductVariant {Fields Variant} _ _ _.
Arguments variant_fields {Fields Variant} _.
Arguments variant_rank {Fields Variant} _.
Arguments variant_product {Fields Variant} _.

Module ProductVariantService.

Section create.
Context {Fields Variant : Type}.
Variable product_retrieve : string → Outcome (Product Variant).
Variable repository_create :
  list (CreateProductVariantOnlyDTO Fields Variant) → Outcome (list Variant).

(** [Object.assign(variant, { variant_rank, product })]. *)
Definition assign (variant : CreateProductVariantOnlyDTO Fields Variant)
  (rank : nat) (product : Product Variant)
  : CreateProductVariantOnlyDTO Fields Variant :=
  {| variant_fields := variant_fields variant;
     variant_rank := Some rank;
     variant_product := Some product |}.

(** [data_.forEach((variant) => Object.assign(variant,
    { variant_rank: computedRank++, product }))]. *)
Fixpoint forEach_assign (product : Product Variant) (computedRank : nat)
  (data_ : list (CreateProductVariantOnlyDTO Fields Variant))
  : list (CreateProductVariantOnlyDTO Fields Variant) :=
  match data_ with
  | [] => []
  | variant :: rest =>
      assign variant computedRank product
      :: forEach_assign product (S computedRank) rest
  end.

Definition create (productOrId : Product Variant + string)
  (data : list (CreateProductVariantOnlyDTO Fields Variant))
  : Outcome (list Variant) :=
  let retrieved :=
    match productOrId with
    | inr id => product_retrieve id
    | inl product => Return product
    end in
  match retrieved with
  | Throw e => Throw e
  | Return product =>
      let computedRank := length (variants product) in
      repository_create (forEach_assign product computedRank data)
  end.

End create.

End ProductVariantService.

(** ** Vocabulary of the statements *)

Import InventoryService.

(** The pair has a level row in the database. *)
Definition has_level (d : Database) (k : string * string) : Prop :=
  Exists (λ r, level_key r = k) (inventory_levels d).

Global Instance has_level_dec d k : Decision (has_level d k).
Proof. unfold has_level. apply _. Defined.

(** The input pairs for which the database holds no level row. *)
Definition missing_levels `{LevelKeyed A} (d : Database) (data : list A)
  : list A :=
  filter (λ i, ¬ has_level d (level_key i)) data.

(** The rows of the one level query the validation issues. *)
Definition queried_levels `{LevelKeyed A} (d : Database) (data : list A)
  : list InventoryLevelDTO :=
  InventoryLevelService.select
    (inventory_item_id <$> data) (location_id <$> data) d.

Definition ensure_query `{LevelKeyed A} (data : list A) : StoreCall :=
  LevelList (inventory_item_id <$> data) (location_id <$> data) None.

(** [part] occurs in [s]. *)
Definition contains (s part : string) : Prop :=
  ∃ pre post, s = pre +:+ part +:+ post.


(** The row a [list] with [take: 1] on one (item, location) pair yields. *)
Definition level_at (d : Database) (item location : string)
  : option InventoryLevelDTO :=
  head (InventoryLevelService.select [item] [location] d).

(** The rows after [stocked_quantity] of the row with identifier [id] is set
    to [q]. *)
Definition restock (id : string) (q : Z) (l : InventoryLevelDTO)
  : InventoryLevelDTO :=
  if decide (level_id l = id) then set_stocked_quantity q l else l.


(** An inventory item with this identifier exists. *)
Definition has_item (d : Database) (id : string) : Prop :=
  Exists (λ i, item_id i = id) (inventory_items d).

Global Instance has_item_dec d id : Decision (has_item d id).
Proof. unfold has_item. apply _. Defined.

Definition not_found_item (id : string) : MedusaError :=
  mkMedusaError NOT_FOUND
    ("InventoryItem with id " +:+ id +:+ " was not found").

(** The derived available quantity of an item across a set of locations:
    the stocked quantities of its levels there, minus the reserved ones. *)
Definition available (d : Database) (item : string) (locations : list string)
  : Z :=
  InventoryLevelService.stocked_sum item locations d
  - InventoryLevelService.reserved_sum item locations d.

(** Every (item, location) pair has at most one level row. *)
Definition unique_level_keys (d : Database) : Prop :=
  NoDup (level_key <$> inventory_levels d).


Definition not_found_level_for_item (item location : string) : MedusaError :=
  mkMedusaError NOT_FOUND
    ("Inventory level for item " +:+ item +:+
     " and location " +:+ location +:+ " not found").

(** The outcome of the first operation, ignoring the world. *)
Definition returned {A} (r : Outcome A * World) : option A :=
  match r.1 with
  | Return a => Some a
  | Throw _ => None
  end.

(** ** A sample database *)

Definition I1 : InventoryItemDTO := mkInventoryItem "I1" (Some "sku-1").
Definition I2 : InventoryItemDTO := mkInventoryItem "I2" None.

Definition level (id item loc : string) (stocked reserved : Z)
  : InventoryLevelDTO :=
  mkInventoryLevel id item loc stocked reserved 0.

Definition sample_db : Database :=
  {| inventory_items := [I1; I2];
     inventory_levels :=
       [ level "il_1" "I1" "LOC1" 10 0;
         level "il_2" "I1" "LOC2" 4 1;
         level "il_3" "I2" "LOC2" 7 2 ];
     reservation_items := [];
     reservation_seq := 0 |}.

Definition sample : World := {| db := sample_db; calls := [] |}.

Definition reserve_input (item loc : string) (q : Z)
  : CreateReservationItemInput :=
  mkCreateReservationItemInput None item loc q.

(** ** Facts about the two-level index *)

Lemma has_level_elem_of d k :
  has_level d k ↔ ∃ r, r ∈ inventory_levels d ∧ level_key r = k.
Proof. unfold has_level. rewrite Exists_exists. naive_solver. Qed.

Lemma index_get_index_level m r i l :
  index_get (index_level m r) i l =
  if decide (level_key r = (i, l)) then Some r else index_get m i l.
Proof.
  unfold index_get, index_level, level_key.
  destruct (decide (inventory_item_id r = i)) as [<-|Hi].
  - rewrite lookup_insert_eq. simpl.
    destruct (decide (location_id r = l)) as [<-|Hl].
    + rewrite lookup_insert_eq. by rewrite decide_True.
    + rewrite lookup_insert_ne by done.
      rewrite decide_False by (by intros [= ?]).
      by destruct (m !! level_inventory_item_id r).
  - rewrite lookup_insert_ne by done.
    by rewrite decide_False by (by intros [= ? ?]).
Qed.

Lemma index_get_foldl rows m i l :
  index_get (foldl index_level m rows) i l =
  match last (filter (λ r, level_key r = (i, l)) rows) with
  | Some r => Some r
  | None => index_get m i l
  end.
Proof.
  revert m. induction rows as [|r rows IH]; intros m; [done|].
  simpl. rewrite IH, index_get_index_level, filter_cons.
  destruct (decide (level_key r = (i, l))); [|done].
  destruct (filter _ rows) as [|r' rest] eqn:E; [done|].
  change (last (r :: r' :: rest)) with (last (r' :: rest)).
  destruct (last (r' :: rest)) eqn:El; [done|].
  by apply last_None in El.
Qed.

Lemma index_get_index_levels rows i l :
  index_get (index_levels rows) i l =
  last (filter (λ r, level_key r = (i, l)) rows).
Proof.
  unfold index_levels. rewrite index_get_foldl.
  by destruct (last _).
Qed.

Lemma index_get_Some rows i l r :
  index_get (index_levels rows) i l = Some r →
  r ∈ rows ∧ level_key r = (i, l).
Proof.
  rewrite index_get_index_levels.
  intros Hlast. apply last_Some_elem_of in Hlast.
  rewrite list_elem_of_filter in Hlast. by destruct Hlast.
Qed.

Lemma index_get_is_Some rows i l :
  is_Some (index_get (index_levels rows) i l) ↔
  ∃ r, r ∈ rows ∧ level_key r = (i, l).
Proof.
  split.
  - intros [r Hr]. exists r. by apply index_get_Some.
  - intros (r & Hin & Hk). rewrite index_get_index_levels.
    destruct (last _) eqn:E; [by eexists|].
    apply last_None in E.
    assert (r ∈ filter (λ r, level_key r = (i, l)) rows) as Hf
      by (by apply list_elem_of_filter).
    rewrite E in Hf. by apply elem_of_nil in Hf.
Qed.

Lemma NoDup_fmap_elem_inj {A B} (f : A → B) (l : list A) x y :
  NoDup (f <$> l) → x ∈ l → y ∈ l → f x = f y → x = y.
Proof.
  induction l as [|a l IH]; intros Hnd Hx Hy Hf.
  - by apply elem_of_nil in Hx.
  - rewrite fmap_cons in Hnd. apply NoDup_cons in Hnd as [Ha Hnd].
    apply elem_of_cons in Hx as [->|Hx], Hy as [->|Hy]; auto.
    + destruct Ha. rewrite Hf. by apply list_elem_of_fmap_2.
    + destruct Ha. rewrite <- Hf. by apply list_elem_of_fmap_2.
Qed.

(** With one row per key, the index gives every row back for its own key. *)
Lemma index_get_own_row rows r :
  NoDup (level_key <$> rows) → r ∈ rows →
  index_get (index_levels rows) (inventory_item_id r) (location_id r) = Some r.
Proof.
  intros Hnd Hin.
  destruct (index_get (index_levels rows) (inventory_item_id r)
              (location_id r)) as [r'|] eqn:E.
  - apply index_get_Some in E as [Hin' Hk]. f_equal.
    by apply (NoDup_fmap_elem_inj level_key rows).
  - assert (is_Some (index_get (index_levels rows) (inventory_item_id r)
                       (location_id r))) as [? Hs].
    { apply index_get_is_Some. by exists r. }
    congruence.
Qed.

Lemma filter_ext_elem_of {A} (P Q : A → Prop)
    `{!∀ x, Decision (P x), !∀ x, Decision (Q x)} (l : list A) :
  (∀ x, x ∈ l → P x ↔ Q x) → filter P l = filter Q l.
Proof.
  induction l as [|x l IH]; intros HPQ; [done|].
  rewrite !filter_cons.
  rewrite IH by (intros y Hy; apply HPQ; by right).
  destruct (decide (P x)) as [HP|HP], (decide (Q x)) as [HQ|HQ]; try done.
  - destruct HQ. apply HPQ; [by left|done].
  - destruct HP. apply HPQ; [by left|done].
Qed.

(** ** What [ensureInventoryLevels] computes *)

Section ensure.
Context `{LevelKeyed A}.

Lemma queried_has_level d data i :
  i ∈ data →
  (∃ r, r ∈ queried_levels d data ∧
        level_key r = (inventory_item_id i, location_id i)) ↔
  has_level d (level_key i).
Proof.
  intros Hi. rewrite has_level_elem_of.
  unfold queried_levels, InventoryLevelService.select.
  split; intros (r & Hr & Hk); exists r.
  - rewrite list_elem_of_filter in Hr. by destruct Hr.
  - split; [|done]. apply list_elem_of_filter. split; [|done].
    assert (inventory_item_id r = inventory_item_id i
            ∧ location_id r = location_id i) as [Hitem Hloc]
      by (by injection Hk).
    unfold InventoryLevelService.selects.
    split; [rewrite Hitem|rewrite Hloc]; by apply list_elem_of_fmap_2.
Qed.

Lemma ensure_missing d data :
  filter (λ i, ¬ is_Some (index_get (index_levels (queried_levels d data))
                            (inventory_item_id i) (location_id i))) data
  = missing_levels d data.
Proof.
  apply filter_ext_elem_of. intros i Hi.
  by rewrite index_get_is_Some, queried_has_level.
Qed.

Lemma ensureInventoryLevels_eq data w :
  ensureInventoryLevels data w =
  let w' := {| db := db w; calls := calls w ++ [ensure_query data] |} in
  let rows := queried_levels (db w) data in
  match missing_levels (db w) data with
  | [] =>
      (Return ((λ r, index_get (index_levels rows)
                       (inventory_item_id r) (location_id r)) <$> rows), w')
  | missing =>
      (Throw (mkMedusaError NOT_FOUND (join ", " (not_stocked <$> missing))),
       w')
  end.
Proof.
  unfold ensureInventoryLevels, InventoryLevelService.list, bind, issue, read.
  cbn [db calls InventoryLevelService.limit].
  fold (queried_levels (db w) data). rewrite ensure_missing.
  by destruct (missing_levels (db w) data).
Qed.

Lemma missing_levels_nil d data :
  missing_levels d data = [] ↔ ∀ i, i ∈ data → has_level d (level_key i).
Proof.
  unfold missing_levels. split.
  - intros Hnil i Hi.
    destruct (decide (has_level d (level_key i))) as [|Hno]; [done|].
    by destruct (filter_nil_not_elem_of _ _ i Hnil Hno).
  - intros Hall. induction data as [|i data IH]; [done|].
    rewrite filter_cons_False.
    + apply IH. intros j Hj. apply Hall. by right.
    + intros Hno. apply Hno, Hall. by left.
Qed.

Lemma missing_levels_elem_of d data i :
  i ∈ missing_levels d data ↔ i ∈ data ∧ ¬ has_level d (level_key i).
Proof. unfold missing_levels. rewrite list_elem_of_filter. tauto. Qed.

End ensure.

(** ** Error messages *)

Lemma string_app_assoc (a b c : string) : (a +:+ b) +:+ c = a +:+ b +:+ c.
Proof.
  induction a as [|x a IH]; [done|].
  change (String x ((a +:+ b) +:+ c) = String x (a +:+ b +:+ c)).
  by f_equal.
Qed.

Lemma string_app_empty_r (a : string) : a +:+ "" = a.
Proof.
  induction a as [|x a IH]; [done|].
  change (String x (a +:+ "") = String x a). by f_equal.
Qed.

Lemma join_contains sep parts x : x ∈ parts → contains (join sep parts) x.
Proof.
  induction parts as [|p parts IH]; intros Hx.
  - by apply elem_of_nil in Hx.
  - apply elem_of_cons in Hx as [->|Hx].
    + destruct parts as [|q parts].
      * exists "", "". simpl. by rewrite string_app_empty_r.
      * by exists "", (sep +:+ join sep (q :: parts)).
    + destruct (IH Hx) as (pre & post & Heq).
      destruct parts as [|q parts]; [by apply elem_of_nil in Hx|].
      exists (p +:+ sep +:+ pre), post.
      change (join sep (p :: q :: parts))
        with (p +:+ sep +:+ join sep (q :: parts)).
      by rewrite Heq, !string_app_assoc.
Qed.

(** ** Reservation creation *)




Lemma createReservationItems_eq input w :
  createReservationItems input w =
  match missing_levels (db w) input with
  | [] =>
      (Return (ReservationItemService.new_rows (reservation_seq (db w)) input),
       {| db := ReservationItemService.insert input (db w);
          calls := calls w ++ [ensure_query input; ReservationCreate input] |})
  | missing =>
      (Throw (mkMedusaError NOT_FOUND (join ", " (not_stocked <$> missing))),
       {| db := db w; calls := calls w ++ [ensure_query input] |})
  end.
Proof.
  unfold createReservationItems, InjectTransactionManager, bind at 1.
  rewrite ensureInventoryLevels_eq. cbn zeta.
  destruct (missing_levels (db w) input); [|done].
  unfold ReservationItemService.create, bind, issue, read, write, ret.
  cbn [db calls]. by rewrite <- app_assoc.
Qed.

(** C1. Reservation creation is all-or-nothing: when at least one input pair
    has no inventory level, [createReservationItems] throws NOT_FOUND, the
    message is the list of "Item ... is not stocked at location ..." phrases
    of all the pairs without a level (so the phrase of every offending pair
    occurs in it), the database is the one at entry (no reservation row is
    written) and the only store call issued is the level query. *)
Theorem createReservationItems_all_or_nothing
    (input : list CreateReservationItemInput) (w : World) :
  (∃ i, i ∈ input ∧ ¬ has_level (db w) (level_key i)) →
  ∃ message,
    createReservationItems input w =
      (Throw (mkMedusaError NOT_FOUND message),
       {| db := db w; calls := calls w ++ [ensure_query input] |})
    ∧ message = join ", " (not_stocked <$> missing_levels (db w) input)
    ∧ ∀ i, i ∈ input → ¬ has_level (db w) (level_key i) →
           contains message (not_stocked i).
Proof.
  intros (i0 & Hin0 & Hno0).
  exists (join ", " (not_stocked <$> missing_levels (db w) input)).
  split; [|split; [done|]].
  - rewrite createReservationItems_eq.
    destruct (missing_levels (db w) input) as [|m ms] eqn:E; [|done].
    assert (i0 ∈ missing_levels (db w) input) as Hm
      by (by apply missing_levels_elem_of).
    rewrite E in Hm. by apply elem_of_nil in Hm.
  - intros i Hi Hno. apply join_contains, list_elem_of_fmap_2.
    by apply missing_levels_elem_of.
Qed.

Lemma createReservationItems_all_or_nothing_witness :
  let input := [reserve_input "I1" "LOC1" 2; reserve_input "I2" "LOC1" 1;
                reserve_input "I3" "LOC2" 1] in
  ∃ message,
    createReservationItems input sample =
      (Throw (mkMedusaError NOT_FOUND message),
       {| db := sample_db; calls := [ensure_query input] |})
    ∧ message = join ", " (not_stocked <$> missing_levels sample_db input)
    ∧ ∀ i, i ∈ input → ¬ has_level sample_db (level_key i) →
           contains message (not_stocked i).
Proof.
  intros input.
  apply (createReservationItems_all_or_nothing input sample).
  exists (reserve_input "I2" "LOC1" 1). split.
  - apply list_elem_of_further, list_elem_of_here.
  - apply (bool_decide_unpack _). vm_compute. exact I.
Defined.

(** The scenario of the specification: a level with stocked=10, reserved=0;
    reserving 5 leaves 5 available, and reserving 6 more is accepted and
    leaves -1. *)
Example reserve_scenario :
  ∃ rows1 w1 rows2 w2,
    confirmInventory "I1" ["LOC1"] 5 sample
      = (Return true, {| db := sample_db;
                         calls := [ItemRetrieve "I1";
                                   LevelGetAvailableQuantity "I1" ["LOC1"]] |})
    ∧ createReservationItems [reserve_input "I1" "LOC1" 5] sample
      = (Return rows1, w1)
    ∧ (retrieveAvailableQuantity "I1" ["LOC1"] w1).1 = Return 5
    ∧ createReservationItems [reserve_input "I1" "LOC1" 6] w1
      = (Return rows2, w2)
    ∧ (retrieveAvailableQuantity "I1" ["LOC1"] w2).1 = Return (-1).
Proof. do 4 eexists. repeat split; vm_compute; reflexivity. Qed.



(** ** The order of the validated rows *)

(** The batch ["I1"@"LOC1"; "I2"@"LOC2"] is fully stocked in the sample
    database, yet the validation returns three rows for its two pairs: the
    level query is by item set and location set, so it also brings the level
    of "I1" at "LOC2". *)
Lemma ensureInventoryLevels_input_order_counterexample :
  let data := [("I1", "LOC1"); ("I2", "LOC2")] in
  (∀ i, i ∈ data → has_level sample_db (level_key i))
  ∧ ∃ rows w',
      ensureInventoryLevels data sample = (Return rows, w')
      ∧ fmap level_key <$> rows ≠ Some ∘ level_key <$> data.
Proof.
  intros data. split.
  - apply Forall_forall. apply (bool_decide_unpack _). vm_compute. exact I.
  - eexists _, _. split; [vm_compute; reflexivity|].
    vm_compute. discriminate.
Qed.

Lemma queried_levels_stored `{LevelKeyed A} d (data : list A) r :
  r ∈ queried_levels d data → r ∈ inventory_levels d.
Proof.
  unfold queried_levels, InventoryLevelService.select.
  rewrite list_elem_of_filter. tauto.
Qed.

Lemma queried_levels_NoDup `{LevelKeyed A} d (data : list A) :
  NoDup (level_key <$> inventory_levels d) →
  NoDup (level_key <$> queried_levels d data).
Proof.
  intros Hnd. eapply sublist_NoDup; [exact Hnd|].
  apply fmap_sublist, sublist_filter.
Qed.

(** C6 (amended). When every input pair has a level row, the validation
    returns one entry per row of its level query (the levels whose item id is
    among the batch's item ids and whose location id is among the batch's
    location ids), in the order of the query result: each entry is a stored
    level with the key of the queried row at its position.  The level of every
    input pair is among the entries, and with one stored row per key the
    result is the query result itself. *)
Theorem ensureInventoryLevels_returns_queried_rows
    `{LevelKeyed A} (data : list A) (w : World) :
  (∀ i, i ∈ data → has_level (db w) (level_key i)) →
  ∃ rows,
    ensureInventoryLevels data w =
      (Return rows, {| db := db w; calls := calls w ++ [ensure_query data] |})
    ∧ Forall2 (λ q entry, ∃ r, entry = Some r ∧ r ∈ inventory_levels (db w)
                               ∧ level_key r = level_key q)
        (queried_levels (db w) data) rows
    ∧ (∀ i, i ∈ data → ∃ r, Some r ∈ rows ∧ level_key r = level_key i)
    ∧ (NoDup (level_key <$> inventory_levels (db w)) →
       rows = Some <$> queried_levels (db w) data).
Proof.
  intros Hall. eexists. split.
  { rewrite ensureInventoryLevels_eq. cbn zeta.
    apply missing_levels_nil in Hall. by rewrite Hall. }
  set (queried := queried_levels (db w) data).
  assert (∀ q, q ∈ queried →
            ∃ r, index_get (index_levels queried)
                   (inventory_item_id q) (location_id q) = Some r
                 ∧ r ∈ inventory_levels (db w)
                 ∧ level_key r = level_key q) as Hentry.
  { intros q Hq.
    assert (is_Some (index_get (index_levels queried)
                       (inventory_item_id q) (location_id q))) as [r Hr].
    { apply index_get_is_Some. by exists q. }
    exists r. split; [done|].
    apply index_get_Some in Hr as [Hin Hk].
    split; [by eapply queried_levels_stored|done]. }
  split; [|split].
  - apply Forall2_fmap_r, Forall_Forall2_diag, Forall_forall.
    intros q Hq. destruct (Hentry q Hq) as (r & Hr & Hin & Hk). by exists r.
  - intros i Hi.
    destruct (proj2 (queried_has_level (db w) data i Hi) (Hall i Hi))
      as (q & Hq & Hk).
    destruct (Hentry q Hq) as (r & Hr & Hin & Hkr).
    exists r. split.
    + apply list_elem_of_fmap. by exists q.
    + rewrite Hkr. exact Hk.
  - intros Hnd. apply list_fmap_ext. intros k q Hq.
    apply index_get_own_row.
    + by apply queried_levels_NoDup.
    + by eapply list_elem_of_lookup_2.
Qed.

Lemma ensureInventoryLevels_returns_queried_rows_witness :
  let data := [("I1", "LOC1"); ("I2", "LOC2")] in
  ∃ rows,
    ensureInventoryLevels data sample =
      (Return rows, {| db := sample_db; calls := [ensure_query data] |})
    ∧ Forall2 (λ q entry, ∃ r, entry = Some r ∧ r ∈ inventory_levels sample_db
                               ∧ level_key r = level_key q)
        (queried_levels sample_db data) rows
    ∧ (∀ i, i ∈ data → ∃ r, Some r ∈ rows ∧ level_key r = level_key i)
    ∧ (NoDup (level_key <$> inventory_levels sample_db) →
       rows = Some <$> queried_levels sample_db data).
Proof.
  intros data.
  apply (ensureInventoryLevels_returns_queried_rows data sample).
  apply Forall_forall. apply (bool_decide_unpack _). vm_compute. exact I.
Defined.

(** ** Single-level operations *)

Lemma head_take_1 {A} (xs : list A) : head (take 1 xs) = head xs.
Proof. by destruct xs. Qed.

Lemma selects_one item location r :
  InventoryLevelService.selects [item] [location] r ↔
  level_key r = (item, location).
Proof.
  unfold InventoryLevelService.selects, level_key.
  rewrite !list_elem_of_singleton. split.
  - intros [Hitem Hloc]. by rewrite Hitem, Hloc.
  - intros [= Hitem Hloc]. by split.
Qed.

Lemma level_at_Some d item location r :
  level_at d item location = Some r →
  r ∈ inventory_levels d ∧ level_key r = (item, location).
Proof.
  intros Hr. apply head_Some_elem_of in Hr.
  unfold InventoryLevelService.select in Hr.
  rewrite list_elem_of_filter, selects_one in Hr. tauto.
Qed.

Lemma level_at_None d item location :
  level_at d item location = None ↔ ¬ has_level d (item, location).
Proof.
  rewrite has_level_elem_of. unfold level_at, InventoryLevelService.select.
  split.
  - intros Hnone (r & Hin & Hk).
    destruct (filter _ (inventory_levels d)) as [|x xs] eqn:E; [|done].
    apply (filter_nil_not_elem_of _ _ r E); [by apply selects_one|done].
  - intros Hno.
    destruct (filter _ (inventory_levels d)) as [|x xs] eqn:E; [done|].
    destruct Hno. exists x.
    assert (x ∈ filter (InventoryLevelService.selects [item] [location])
                  (inventory_levels d)) as Hx by (rewrite E; by left).
    rewrite list_elem_of_filter, selects_one in Hx. tauto.
Qed.





(** C7. Deleting the level of a pair that has no level row is a no-op:
    [deleteInventoryLevel] returns normally, the database is unchanged, and
    the only store call is the lookup, which is not a write. *)
Theorem deleteInventoryLevel_absent_is_noop
    (inventoryItemId locationId : string) (w : World) :
  ¬ has_level (db w) (inventoryItemId, locationId) →
  let query := LevelList [inventoryItemId] [locationId] (Some 1%nat) in
  deleteInventoryLevel inventoryItemId locationId w =
    (Return (), {| db := db w; calls := calls w ++ [query] |})
  ∧ is_write query = false.
Proof.
  intros Hno query. split; [|done]. apply level_at_None in Hno.
  unfold deleteInventoryLevel, InjectTransactionManager,
    InventoryLevelService.list, bind, issue, read.
  cbn [db calls InventoryLevelService.limit]. rewrite head_take_1.
  fold (level_at (db w) inventoryItemId locationId). by rewrite Hno.
Qed.

Lemma deleteInventoryLevel_absent_is_noop_witness :
  deleteInventoryLevel "I2" "LOC1" sample =
    (Return (), {| db := sample_db;
                   calls := [LevelList ["I2"] ["LOC1"] (Some 1%nat)] |})
  ∧ is_write (LevelList ["I2"] ["LOC1"] (Some 1%nat)) = false.
Proof.
  apply (deleteInventoryLevel_absent_is_noop "I2" "LOC1" sample).
  apply (bool_decide_unpack _). vm_compute. exact I.
Defined.

(** C8. [deleteInventoryItem] first asks the level store to delete the levels
    of the given item(s) and then the item store to delete the item row(s).
    Afterwards the level table holds exactly the former levels of the other
    items, in their former order, the item table holds the other items, and
    the reservation table is unchanged. *)
Theorem deleteInventoryItem_cascades (inventoryItemId : IdOrIds) (w : World) :
  ∃ w',
    deleteInventoryItem inventoryItemId w = (Return (), w')
    ∧ calls w' = calls w ++ [LevelDeleteByInventoryItemId inventoryItemId;
                             ItemDelete inventoryItemId]
    ∧ inventory_levels (db w')
      = filter (λ l, inventory_item_id l ∉ id_list inventoryItemId)
          (inventory_levels (db w))
    ∧ inventory_items (db w')
      = filter (λ i, item_id i ∉ id_list inventoryItemId)
          (inventory_items (db w))
    ∧ reservation_items (db w') = reservation_items (db w)
    ∧ (∀ l, l ∈ inventory_levels (db w') ↔
            l ∈ inventory_levels (db w)
            ∧ inventory_item_id l ∉ id_list inventoryItemId).
Proof.
  eexists. split; [reflexivity|]. cbn.
  split; [by rewrite <- app_assoc|]. do 3 (split; [done|]).
  intros l. rewrite list_elem_of_filter. tauto.
Qed.

(** ** Quantity queries *)

Lemma item_find_None d id :
  InventoryItemService.find id d = None ↔ ¬ has_item d id.
Proof.
  unfold InventoryItemService.find, has_item. rewrite Exists_exists.
  destruct (filter _ (inventory_items d)) as [|x xs] eqn:E; simpl.
  - split; [|done]. intros _ (i & Hin & Hid).
    by destruct (filter_nil_not_elem_of _ _ i E).
  - split; [done|]. intros Hno. destruct Hno. exists x.
    assert (x ∈ filter (λ i, item_id i = id) (inventory_items d)) as Hx
      by (rewrite E; by left).
    rewrite list_elem_of_filter in Hx. tauto.
Qed.

Lemma retrieve_eq id w :
  InventoryItemService.retrieve id w =
  let w' := {| db := db w; calls := calls w ++ [ItemRetrieve id] |} in
  match InventoryItemService.find id (db w) with
  | Some item => (Return item, w')
  | None => (Throw (not_found_item id), w')
  end.
Proof.
  unfold InventoryItemService.retrieve, bind, issue, read. cbn [db calls].
  by destruct (InventoryItemService.find id (db w)).
Qed.

Lemma select_no_locations items d :
  InventoryLevelService.select items [] d = [].
Proof.
  unfold InventoryLevelService.select.
  induction (inventory_levels d) as [|r rows IH]; [done|].
  rewrite filter_cons_False; [done|].
  intros [_ Hloc]. by apply elem_of_nil in Hloc.
Qed.

(** C4. For an unknown item and a non-empty location list, each of the three
    quantity queries throws NOT_FOUND with the item lookup as its only store
    call: no call reaches the inventory level store. *)
Theorem retrieve_quantities_check_item_first
    (inventoryItemId : string) (locationIds : list string) (w : World) :
  ¬ has_item (db w) inventoryItemId →
  locationIds ≠ [] →
  let failed : Outcome Z * World :=
    (Throw (not_found_item inventoryItemId),
     {| db := db w; calls := calls w ++ [ItemRetrieve inventoryItemId] |}) in
  retrieveAvailableQuantity inventoryItemId locationIds w = failed
  ∧ retrieveStockedQuantity inventoryItemId locationIds w = failed
  ∧ retrieveReservedQuantity inventoryItemId locationIds w = failed
  ∧ threw failed.1 NOT_FOUND
  ∧ is_level_call (ItemRetrieve inventoryItemId) = false.
Proof.
  intros Hno _ failed. apply item_find_None in Hno.
  unfold retrieveAvailableQuantity, retrieveStockedQuantity,
    retrieveReservedQuantity, bind.
  rewrite retrieve_eq. cbn zeta. by rewrite Hno.
Qed.

Lemma retrieve_quantities_check_item_first_witness :
  let failed : Outcome Z * World :=
    (Throw (not_found_item "I9"),
     {| db := sample_db; calls := [ItemRetrieve "I9"] |}) in
  retrieveAvailableQuantity "I9" ["LOC1"] sample = failed
  ∧ retrieveStockedQuantity "I9" ["LOC1"] sample = failed
  ∧ retrieveReservedQuantity "I9" ["LOC1"] sample = failed
  ∧ threw failed.1 NOT_FOUND
  ∧ is_level_call (ItemRetrieve "I9") = false.
Proof.
  apply (retrieve_quantities_check_item_first "I9" ["LOC1"] sample).
  - apply (bool_decide_unpack _). vm_compute. exact I.
  - discriminate.
Defined.

(** C10. For an unknown item [confirmInventory] throws the NOT_FOUND of the
    item lookup made by [retrieveAvailableQuantity]; it does not return
    [false]. *)
Theorem confirmInventory_unknown_item_throws
    (inventoryItemId : string) (locationIds : list string) (quantity : Z)
    (w : World) :
  ¬ has_item (db w) inventoryItemId →
  let e := not_found_item inventoryItemId in
  (retrieveAvailableQuantity inventoryItemId locationIds w).1 = Throw e
  ∧ confirmInventory inventoryItemId locationIds quantity w =
      (Throw e,
       {| db := db w; calls := calls w ++ [ItemRetrieve inventoryItemId] |})
  ∧ error_type e = NOT_FOUND
  ∧ (confirmInventory inventoryItemId locationIds quantity w).1
    ≠ Return false.
Proof.
  intros Hno e. apply item_find_None in Hno.
  unfold confirmInventory, InjectTransactionManager, bind at 1.
  unfold retrieveAvailableQuantity, bind.
  rewrite retrieve_eq. cbn zeta. rewrite Hno. by cbn.
Qed.

Lemma confirmInventory_unknown_item_throws_witness :
  let e := not_found_item "I9" in
  (retrieveAvailableQuantity "I9" ["LOC1"; "LOC2"] sample).1 = Throw e
  ∧ confirmInventory "I9" ["LOC1"; "LOC2"] 1 sample =
      (Throw e, {| db := sample_db; calls := [ItemRetrieve "I9"] |})
  ∧ error_type e = NOT_FOUND
  ∧ (confirmInventory "I9" ["LOC1"; "LOC2"] 1 sample).1 ≠ Return false.
Proof.
  apply (confirmInventory_unknown_item_throws "I9" ["LOC1"; "LOC2"] 1 sample).
  apply (bool_decide_unpack _). vm_compute. exact I.
Defined.

Lemma retrieveAvailableQuantity_eq id locs w :
  has_item (db w) id →
  retrieveAvailableQuantity id locs w =
  (Return (available (db w) id locs),
   {| db := db w;
      calls := calls w ++
        ItemRetrieve id ::
        (if decide (length locs = 0%nat) then []
         else [LevelGetAvailableQuantity id locs]) |}).
Proof.
  intros Hitem. unfold retrieveAvailableQuantity, bind at 1.
  rewrite retrieve_eq. cbn zeta.
  destruct (InventoryItemService.find id (db w)) eqn:E;
    [|by apply item_find_None in E].
  destruct (decide (length locs = 0%nat)) as [Hlen|Hlen].
  - apply nil_length_inv in Hlen as ->. unfold ret, available.
    unfold InventoryLevelService.stocked_sum,
      InventoryLevelService.reserved_sum.
    by rewrite select_no_locations.
  - unfold InventoryLevelService.getAvailableQuantity, bind, issue, read, ret.
    cbn [db calls]. by rewrite <- app_assoc.
Qed.

(** C3. For an existing item [confirmInventory] returns [true] exactly when
    the derived available quantity across the given locations is at least
    the requested quantity; the database is unchanged and none of the store
    calls it issues is a write. *)
Theorem confirmInventory_compares_available
    (inventoryItemId : string) (locationIds : list string) (quantity : Z)
    (w : World) :
  has_item (db w) inventoryItemId →
  ∃ answer issued,
    confirmInventory inventoryItemId locationIds quantity w =
      (Return answer, {| db := db w; calls := calls w ++ issued |})
    ∧ (answer = true ↔
       available (db w) inventoryItemId locationIds >= quantity)
    ∧ Forall (λ c, is_write c = false) issued.
Proof.
  intros Hitem.
  unfold confirmInventory, InjectTransactionManager, bind.
  rewrite retrieveAvailableQuantity_eq by done. unfold ret.
  eexists _, _. split; [done|]. split.
  - rewrite Z.geb_le. lia.
  - destruct (decide (length locationIds = 0%nat)); by repeat constructor.
Qed.

Lemma confirmInventory_compares_available_witness :
  ∃ answer issued,
    confirmInventory "I1" ["LOC1"; "LOC2"] 13 sample =
      (Return answer, {| db := sample_db; calls := [] ++ issued |})
    ∧ (answer = true ↔ available sample_db "I1" ["LOC1"; "LOC2"] >= 13)
    ∧ Forall (λ c, is_write c = false) issued.
Proof.
  apply (confirmInventory_compares_available "I1" ["LOC1"; "LOC2"] 13 sample).
  apply (bool_decide_unpack _). vm_compute. exact I.
Defined.

(** With an empty location list the item store is still queried: the call
    log of [retrieveAvailableQuantity "I1" []] is not empty. *)
Lemma retrieveAvailableQuantity_no_locations_counterexample :
  has_item sample_db "I1"
  ∧ ¬ (∃ w', retrieveAvailableQuantity "I1" [] sample = (Return 0, w')
             ∧ calls w' = calls sample).
Proof.
  split.
  - apply (bool_decide_unpack _). vm_compute. exact I.
  - intros (w' & Heq & Hcalls). vm_compute in Heq.
    injection Heq as <-. discriminate Hcalls.
Qed.

(** C5 (amended). For an existing item and an empty location list
    [retrieveAvailableQuantity] returns 0; its only store call is the item
    lookup, and no call reaches the inventory level store. *)
Theorem retrieveAvailableQuantity_no_locations
    (inventoryItemId : string) (w : World) :
  has_item (db w) inventoryItemId →
  ∃ issued,
    retrieveAvailableQuantity inventoryItemId [] w =
      (Return 0, {| db := db w; calls := calls w ++ issued |})
    ∧ issued = [ItemRetrieve inventoryItemId]
    ∧ Forall (λ c, is_level_call c = false) issued.
Proof.
  intros Hitem. exists [ItemRetrieve inventoryItemId].
  split; [|split; [done|by repeat constructor]].
  rewrite retrieveAvailableQuantity_eq by done.
  unfold available, InventoryLevelService.stocked_sum,
    InventoryLevelService.reserved_sum.
  by rewrite select_no_locations.
Qed.

Lemma retrieveAvailableQuantity_no_locations_witness :
  ∃ issued,
    retrieveAvailableQuantity "I1" [] sample =
      (Return 0, {| db := sample_db; calls := [] ++ issued |})
    ∧ issued = [ItemRetrieve "I1"]
    ∧ Forall (λ c, is_level_call c = false) issued.
Proof.
  apply (retrieveAvailableQuantity_no_locations "I1" sample).
  apply (bool_decide_unpack _). vm_compute. exact I.
Defined.

(** ** Further properties of the single-level operations *)


Lemma restock_key id q r : level_key (restock id q r) = level_key r.
Proof. unfold restock. by destruct (decide (level_id r = id)). Qed.






Lemma has_level_level_at d item location :
  has_level d (item, location) → ∃ lvl, level_at d item location = Some lvl.
Proof.
  intros Hl. destruct (level_at d item location) as [lvl|] eqn:E; [by eauto|].
  by apply level_at_None in E.
Qed.


Lemma retrieveInventoryLevel_eq i l w :
  retrieveInventoryLevel i l w =
  let w' := {| db := db w;
               calls := calls w ++ [LevelList [i] [l] (Some 1%nat)] |} in
  match level_at (db w) i l with
  | Some lvl => (Return lvl, w')
  | None => (Throw (not_found_level_for_item i l), w')
  end.
Proof.
  unfold retrieveInventoryLevel, InventoryLevelService.list, bind, issue, read.
  cbn [db calls InventoryLevelService.limit]. rewrite head_take_1.
  fold (level_at (db w) i l). by destruct (level_at (db w) i l).
Qed.

(** X1. [retrieveInventoryLevel] returns a stored level of the requested
    item at the requested location when the pair has one, and throws
    NOT_FOUND ("Inventory level for item ... and location ... not found")
    when it has none; either way the database is unchanged and the only
    store call is the lookup. *)
Theorem retrieveInventoryLevel_found_or_not_found
    (inventoryItemId locationId : string) (w : World) :
  let w' := {| db := db w;
               calls := calls w ++
                 [LevelList [inventoryItemId] [locationId] (Some 1%nat)] |} in
  (has_level (db w) (inventoryItemId, locationId) →
   ∃ lvl,
     retrieveInventoryLevel inventoryItemId locationId w = (Return lvl, w')
     ∧ lvl ∈ inventory_levels (db w)
     ∧ inventory_item_id lvl = inventoryItemId
     ∧ location_id lvl = locationId)
  ∧ (¬ has_level (db w) (inventoryItemId, locationId) →
     retrieveInventoryLevel inventoryItemId locationId w =
       (Throw (not_found_level_for_item inventoryItemId locationId), w')).
Proof.
  intros w'. split.
  - intros Hl. destruct (has_level_level_at _ _ _ Hl) as [lvl Hlvl].
    exists lvl. rewrite retrieveInventoryLevel_eq, Hlvl.
    destruct (level_at_Some _ _ _ _ Hlvl) as [Hin Hk].
    injection Hk as Hitem Hloc. by repeat split.
  - intros Hno. apply level_at_None in Hno.
    by rewrite retrieveInventoryLevel_eq, Hno.
Qed.

Lemma retrieveInventoryLevel_found_or_not_found_witness :
  (∃ lvl,
     retrieveInventoryLevel "I1" "LOC2" sample =
       (Return lvl, {| db := sample_db;
                       calls := [LevelList ["I1"] ["LOC2"] (Some 1%nat)] |})
     ∧ lvl ∈ inventory_levels sample_db
     ∧ inventory_item_id lvl = "I1"
     ∧ location_id lvl = "LOC2")
  ∧ retrieveInventoryLevel "I2" "LOC1" sample =
      (Throw (not_found_level_for_item "I2" "LOC1"),
       {| db := sample_db;
          calls := [LevelList ["I2"] ["LOC1"] (Some 1%nat)] |}).
Proof.
  split.
  - apply (retrieveInventoryLevel_found_or_not_found "I1" "LOC2" sample).
    apply (bool_decide_unpack _). vm_compute. exact I.
  - apply (retrieveInventoryLevel_found_or_not_found "I2" "LOC1" sample).
    apply (bool_decide_unpack _). vm_compute. exact I.
Defined.











Lemma deleteInventoryLevel_eq i l w :
  deleteInventoryLevel i l w =
  let query := LevelList [i] [l] (Some 1%nat) in
  match level_at (db w) i l with
  | None => (Return (), {| db := db w; calls := calls w ++ [query] |})
  | Some lvl =>
      (Return (),
       {| db := with_levels (filter (λ r, level_id r ≠ level_id lvl)) (db w);
          calls := calls w ++ [query; LevelDelete (level_id lvl)] |})
  end.
Proof.
  unfold deleteInventoryLevel, InjectTransactionManager,
    InventoryLevelService.list, bind, issue, read.
  cbn [db calls InventoryLevelService.limit]. rewrite head_take_1.
  fold (level_at (db w) i l).
  destruct (level_at (db w) i l); [|done].
  unfold InventoryLevelService.delete, bind, issue, write. cbn [db calls].
  by rewrite <- app_assoc.
Qed.

(** X5. [deleteInventoryLevel] on a pair whose level is [lvl] deletes by the
    identifier of [lvl]: the level table keeps exactly the rows with another
    identifier, the item and reservation tables are untouched (reservations
    held against the deleted level stay), and with one row per pair the pair
    has no level afterwards. *)
Theorem deleteInventoryLevel_removes_level
    (inventoryItemId locationId : string) (w : World)
    (lvl : InventoryLevelDTO) :
  level_at (db w) inventoryItemId locationId = Some lvl →
  ∃ w',
    deleteInventoryLevel inventoryItemId locationId w = (Return (), w')
    ∧ calls w' = calls w ++
        [LevelList [inventoryItemId] [locationId] (Some 1%nat);
         LevelDelete (level_id lvl)]
    ∧ inventory_levels (db w')
      = filter (λ r, level_id r ≠ level_id lvl) (inventory_levels (db w))
    ∧ inventory_items (db w') = inventory_items (db w)
    ∧ reservation_items (db w') = reservation_items (db w)
    ∧ (unique_level_keys (db w) →
       ¬ has_level (db w') (inventoryItemId, locationId)).
Proof.
  intros Hlvl. eexists. split.
  { by rewrite deleteInventoryLevel_eq, Hlvl. }
  cbn. do 4 (split; [done|]).
  intros Hkeys Hhas. apply has_level_elem_of in Hhas as (r & Hr & Hk).
  cbn in Hr. rewrite list_elem_of_filter in Hr. destruct Hr as [Hid Hr].
  destruct (level_at_Some _ _ _ _ Hlvl) as [Hin Hkey].
  apply Hid. f_equal.
  apply (NoDup_fmap_elem_inj level_key (inventory_levels (db w))); try done.
  by rewrite Hk, Hkey.
Qed.

Lemma deleteInventoryLevel_removes_level_witness :
  ∃ w',
    deleteInventoryLevel "I1" "LOC2" sample = (Return (), w')
    ∧ calls w' = [] ++ [LevelList ["I1"] ["LOC2"] (Some 1%nat);
                        LevelDelete "il_2"]
    ∧ inventory_levels (db w')
      = filter (λ r, level_id r ≠ "il_2") (inventory_levels sample_db)
    ∧ inventory_items (db w') = inventory_items sample_db
    ∧ reservation_items (db w') = reservation_items sample_db
    ∧ (unique_level_keys sample_db → ¬ has_level (db w') ("I1", "LOC2")).
Proof.
  apply (deleteInventoryLevel_removes_level "I1" "LOC2" sample
           (level "il_2" "I1" "LOC2" 4 1)).
  vm_compute. reflexivity.
Defined.

(** X6. With one row per pair [deleteInventoryLevel] is idempotent: after
    one call the pair has no level, a second call returns normally and
    leaves the database as the first call left it. *)
Theorem deleteInventoryLevel_idempotent
    (inventoryItemId locationId : string) (w : World) :
  unique_level_keys (db w) →
  ∃ w1 w2,
    deleteInventoryLevel inventoryItemId locationId w = (Return (), w1)
    ∧ ¬ has_level (db w1) (inventoryItemId, locationId)
    ∧ deleteInventoryLevel inventoryItemId locationId w1 = (Return (), w2)
    ∧ db w2 = db w1.
Proof.
  intros Hkeys.
  assert (∃ w1, deleteInventoryLevel inventoryItemId locationId w
                = (Return (), w1)
                ∧ ¬ has_level (db w1) (inventoryItemId, locationId))
    as (w1 & Heq1 & Hno).
  { rewrite deleteInventoryLevel_eq. cbn zeta.
    destruct (level_at (db w) inventoryItemId locationId) as [lvl|] eqn:Hlvl.
    - eexists. split; [done|]. cbn [db].
      intros Hhas. apply has_level_elem_of in Hhas as (r & Hr & Hk).
      cbn in Hr. rewrite list_elem_of_filter in Hr. destruct Hr as [Hid Hr].
      destruct (level_at_Some _ _ _ _ Hlvl) as [Hin Hkey].
      apply Hid. f_equal.
      apply (NoDup_fmap_elem_inj level_key (inventory_levels (db w)));
        try done.
      by rewrite Hk, Hkey.
    - eexists. split; [done|]. by apply level_at_None. }
  exists w1. eexists. split; [done|]. split; [done|].
  rewrite deleteInventoryLevel_eq. cbn zeta.
  apply level_at_None in Hno. rewrite Hno. done.
Qed.

Lemma deleteInventoryLevel_idempotent_witness :
  ∃ w1 w2,
    deleteInventoryLevel "I2" "LOC2" sample = (Return (), w1)
    ∧ ¬ has_level (db w1) ("I2", "LOC2")
    ∧ deleteInventoryLevel "I2" "LOC2" w1 = (Return (), w2)
    ∧ db w2 = db w1.
Proof.
  apply (deleteInventoryLevel_idempotent "I2" "LOC2" sample).
  apply (bool_decide_unpack _). vm_compute. exact I.
Defined.

(** ** Further properties of the cascading delete *)

Lemma filter_filter_same {A} (P : A → Prop) `{!∀ x, Decision (P x)}
    (xs : list A) :
  filter P (filter P xs) = filter P xs.
Proof.
  induction xs as [|x xs IH]; [done|].
  rewrite filter_cons. destruct (decide (P x)) as [HP|HP]; [|done].
  by rewrite filter_cons_True, IH.
Qed.

Lemma deleteInventoryItem_eq ids w :
  deleteInventoryItem ids w =
  (Return (),
   {| db := with_items (filter (λ i, item_id i ∉ id_list ids))
              (with_levels
                 (filter (λ l, inventory_item_id l ∉ id_list ids)) (db w));
      calls := calls w ++ [LevelDeleteByInventoryItemId ids;
                           ItemDelete ids] |}).
Proof.
  unfold deleteInventoryItem, InjectTransactionManager,
    InventoryLevelService.deleteByInventoryItemId,
    InventoryItemService.delete, bind, issue, write.
  cbn [db calls]. by rewrite <- app_assoc.
Qed.

(** X7. After [deleteInventoryItem] every deleted identifier is gone for the
    rest of the service: the item and all its levels are absent, the item
    lookup and the available-quantity query throw NOT_FOUND, reserving
    against the item throws NOT_FOUND, and deleting again changes nothing. *)
Theorem deleteInventoryItem_then_queries_fail
    (inventoryItemId : IdOrIds) (id : string) (w : World) :
  id ∈ id_list inventoryItemId →
  ∃ w',
    deleteInventoryItem inventoryItemId w = (Return (), w')
    ∧ ¬ has_item (db w') id
    ∧ (∀ location, ¬ has_level (db w') (id, location))
    ∧ threw (retrieveInventoryItem id w').1 NOT_FOUND
    ∧ (∀ locations, threw (retrieveAvailableQuantity id locations w').1
                      NOT_FOUND)
    ∧ (∀ input i, i ∈ input → inventory_item_id i = id →
         threw (createReservationItems input w').1 NOT_FOUND)
    ∧ (∃ w'', deleteInventoryItem inventoryItemId w' = (Return (), w'')
              ∧ db w'' = db w').
Proof.
  intros Hid. eexists. split; [apply deleteInventoryItem_eq|]. cbn [db].
  set (d' := with_items _ _).
  assert (¬ has_item d' id) as Hitem.
  { unfold has_item. rewrite Exists_exists. intros (i & Hi & Heq).
    cbn in Hi. rewrite list_elem_of_filter in Hi. destruct Hi as [Hout _].
    apply Hout. by rewrite Heq. }
  assert (∀ location, ¬ has_level d' (id, location)) as Hlevel.
  { intros location Hhas. apply has_level_elem_of in Hhas as (r & Hr & Hk).
    unfold d', with_items, with_levels in Hr. cbn [inventory_levels] in Hr.
    rewrite list_elem_of_filter in Hr. destruct Hr as [Hout _].
    apply Hout.
    assert (inventory_item_id r = id) as -> by (by injection Hk). done. }
  split; [done|]. split; [done|].
  apply item_find_None in Hitem.
  split; [|split; [|split]].
  - unfold retrieveInventoryItem, bind. rewrite retrieve_eq. cbn [db].
    by rewrite Hitem.
  - intros locations. unfold retrieveAvailableQuantity, bind.
    rewrite retrieve_eq. cbn [db]. by rewrite Hitem.
  - intros input i Hi Hi_id. rewrite createReservationItems_eq. cbn [db].
    destruct (missing_levels d' input) as [|m ms] eqn:E; [|done].
    assert (i ∈ missing_levels d' input) as Hm.
    { apply missing_levels_elem_of. split; [done|].
      unfold level_key. rewrite Hi_id. apply Hlevel. }
    rewrite E in Hm. by apply elem_of_nil in Hm.
  - eexists. split; [apply deleteInventoryItem_eq|]. cbn [db].
    unfold d', with_items, with_levels. cbn. f_equal; apply filter_filter_same.
Qed.

Lemma deleteInventoryItem_then_queries_fail_witness :
  ∃ w',
    deleteInventoryItem (ManyIds ["I1"; "I7"]) sample = (Return (), w')
    ∧ ¬ has_item (db w') "I1"
    ∧ (∀ location, ¬ has_level (db w') ("I1", location))
    ∧ threw (retrieveInventoryItem "I1" w').1 NOT_FOUND
    ∧ (∀ locations, threw (retrieveAvailableQuantity "I1" locations w').1
                      NOT_FOUND)
    ∧ (∀ input i, i ∈ input → inventory_item_id i = "I1" →
         threw (createReservationItems input w').1 NOT_FOUND)
    ∧ (∃ w'', deleteInventoryItem (ManyIds ["I1"; "I7"]) w' = (Return (), w'')
              ∧ db w'' = db w').
Proof.
  apply (deleteInventoryItem_then_queries_fail
           (ManyIds ["I1"; "I7"]) "I1" sample).
  apply list_elem_of_here.
Defined.

(** ** Further properties of reservation creation *)



(** X9. An empty batch is accepted: [createReservationItems []] returns no
    rows and leaves the database as it was, after issuing the (empty) level
    query and the (empty) reservation create. *)
Theorem createReservationItems_empty_batch (w : World) :
  createReservationItems [] w =
    (Return [],
     {| db := db w;
        calls := calls w ++ [LevelList [] [] None; ReservationCreate []] |}).
Proof.
  rewrite createReservationItems_eq. cbn.
  unfold ReservationItemService.insert. cbn.
  rewrite app_nil_r, Nat.add_0_r. by destruct (db w).
Qed.

(** X10. [ensureInventoryLevels] reads only, and its outcome does not depend
    on the order of the input pairs: for two batches that are permutations
    of each other it either throws NOT_FOUND for both or returns the same
    rows in the same order for both. *)
Theorem ensureInventoryLevels_order_insensitive
    `{LevelKeyed A} (data data' : list A) (w : World) :
  data ≡ₚ data' →
  (ensureInventoryLevels data w).2
    = {| db := db w; calls := calls w ++ [ensure_query data] |}
  ∧ match (ensureInventoryLevels data w).1,
          (ensureInventoryLevels data' w).1 with
    | Return rows, Return rows' => rows = rows'
    | Throw e, Throw e' => error_type e = NOT_FOUND ∧ error_type e' = NOT_FOUND
    | _, _ => False
    end.
Proof.
  intros Hperm. rewrite !ensureInventoryLevels_eq. cbn zeta.
  assert (queried_levels (db w) data = queried_levels (db w) data') as Hq.
  { unfold queried_levels, InventoryLevelService.select.
    apply list_filter_iff. intros r.
    unfold InventoryLevelService.selects. by rewrite Hperm. }
  assert (missing_levels (db w) data ≡ₚ missing_levels (db w) data') as Hm.
  { unfold missing_levels. by rewrite Hperm. }
  split.
  - by destruct (missing_levels (db w) data).
  - destruct (missing_levels (db w) data) as [|m ms],
      (missing_levels (db w) data') as [|m' ms']; cbn.
    + by rewrite Hq.
    + by apply Permutation_nil_cons in Hm.
    + symmetry in Hm. by apply Permutation_nil_cons in Hm.
    + done.
Qed.

Lemma ensureInventoryLevels_order_insensitive_witness :
  let data := [("I1", "LOC1"); ("I2", "LOC2")] in
  let data' := [("I2", "LOC2"); ("I1", "LOC1")] in
  (ensureInventoryLevels data sample).2
    = {| db := sample_db; calls := [] ++ [ensure_query data] |}
  ∧ match (ensureInventoryLevels data sample).1,
          (ensureInventoryLevels data' sample).1 with
    | Return rows, Return rows' => rows = rows'
    | Throw e, Throw e' => error_type e = NOT_FOUND ∧ error_type e' = NOT_FOUND
    | _, _ => False
    end.
Proof.
  intros data data'.
  apply (ensureInventoryLevels_order_insensitive data data' sample).
  apply perm_swap.
Defined.

(** ** Further properties of the quantity queries *)





(** X12. With an empty location list [confirmInventory] compares the
    requested quantity with 0: for an existing item it returns [true]
    exactly when the quantity is at most 0, and the item lookup is its only
    store call. *)
Theorem confirmInventory_no_locations
    (inventoryItemId : string) (quantity : Z) (w : World) :
  has_item (db w) inventoryItemId →
  ∃ answer,
    confirmInventory inventoryItemId [] quantity w =
      (Return answer,
       {| db := db w; calls := calls w ++ [ItemRetrieve inventoryItemId] |})
    ∧ (answer = true ↔ quantity <= 0).
Proof.
  intros Hitem. unfold confirmInventory, InjectTransactionManager, bind.
  rewrite retrieveAvailableQuantity_eq by done. unfold ret. cbn.
  eexists. split; [done|].
  unfold available, InventoryLevelService.stocked_sum,
    InventoryLevelService.reserved_sum.
  rewrite select_no_locations. cbn. rewrite Z.geb_le. lia.
Qed.

Lemma confirmInventory_no_locations_witness :
  ∃ answer,
    confirmInventory "I2" [] 1 sample =
      (Return answer, {| db := sample_db; calls := [] ++ [ItemRetrieve "I2"] |})
    ∧ (answer = true ↔ 1 <= 0).
Proof.
  apply (confirmInventory_no_locations "I2" 1 sample).
  apply (bool_decide_unpack _). vm_compute. exact I.
Defined.

Lemma confirmInventory_known id locs q w :
  has_item (db w) id →
  returned (confirmInventory id locs q w)
  = Some (available (db w) id locs >=? q).
Proof.
  intros Hitem. unfold returned, confirmInventory, InjectTransactionManager,
    bind.
  by rewrite retrieveAvailableQuantity_eq.
Qed.

Lemma confirmInventory_unknown id locs q w :
  ¬ has_item (db w) id → returned (confirmInventory id locs q w) = None.
Proof.
  intros Hno. apply item_find_None in Hno.
  unfold returned, confirmInventory, InjectTransactionManager, bind at 1.
  unfold retrieveAvailableQuantity, bind. rewrite retrieve_eq. cbn zeta.
  by rewrite Hno.
Qed.

(** X13. [confirmInventory] is monotone in the requested quantity: if it
    confirms a quantity, it confirms every smaller one for the same item
    and locations. *)
Theorem confirmInventory_monotone
    (inventoryItemId : string) (locationIds : list string)
    (quantity quantity' : Z) (w : World) :
  quantity' <= quantity →
  returned (confirmInventory inventoryItemId locationIds quantity w)
    = Some true →
  returned (confirmInventory inventoryItemId locationIds quantity' w)
    = Some true.
Proof.
  intros Hle.
  destruct (decide (has_item (db w) inventoryItemId)) as [Hitem|Hno].
  - rewrite !confirmInventory_known by done.
    intros [= Hge]. f_equal. apply Z.geb_le in Hge. apply Z.geb_le. lia.
  - by rewrite confirmInventory_unknown.
Qed.

Lemma confirmInventory_monotone_witness :
  returned (confirmInventory "I1" ["LOC1"; "LOC2"] 4 sample) = Some true.
Proof.
  apply (confirmInventory_monotone "I1" ["LOC1"; "LOC2"] 13 4 sample).
  - lia.
  - vm_compute. reflexivity.
Defined.

(** ** Ranking of new product variants *)




